(** * ESPHome media player entity: enum mapping, feature projection and
      command forwarding

    A shallow embedding of
    [homeassistant/components/esphome/media_player.py].

    Layout:
    - the enumerations the module imports (device side: [aioesphomeapi];
      host side: [homeassistant.components.media_player]);
    - the bidirectional enum mapper and the two tables [_STATES] and
      [_REPEAT_MODES];
    - the static capability descriptor, the state snapshot and the entity;
    - the read-only properties, among them [supported_features];
    - the command methods, written in a small monad that records every
      call submitted to the device client and propagates exceptions;
    - the theorems. *)

From Stdlib Require Import ZArith List String Bool Lia.
From Stdlib Require Import Floats.SpecFloat.
Import ListNotations.

Local Open Scope Z_scope.
Local Open Scope string_scope.

Set Implicit Arguments.

(* ------------------------------------------------------------------ *)
(** ** Enumerations *)

(** [aioesphomeapi.MediaPlayerState], imported as [EspMediaPlayerState].
    The seven members the table [_STATES] lists are named in the module;
    the client library's enum also has the protocol's zero value [NONE],
    which the table does not list. *)
Module EspMediaPlayerState.
Inductive t : Set :=
| NONE | IDLE | PLAYING | PAUSED | ON | OFF | STANDBY | BUFFERING.

Definition eq_dec (x y : t) : {x = y} + {x <> y}.
Proof. decide equality. Defined.
End EspMediaPlayerState.

(** [homeassistant.components.media_player.MediaPlayerState]. *)
Module MediaPlayerState.
Inductive t : Set :=
| IDLE | PLAYING | PAUSED | ON | OFF | STANDBY | BUFFERING.

Definition eq_dec (x y : t) : {x = y} + {x <> y}.
Proof. decide equality. Defined.
End MediaPlayerState.

(** [aioesphomeapi.MediaPlayerRepeatMode], imported as [EspRepeatMode]. *)
Module EspRepeatMode.
Inductive t : Set := OFF | ONE | ALL.

Definition eq_dec (x y : t) : {x = y} + {x <> y}.
Proof. decide equality. Defined.
End EspRepeatMode.

(** [homeassistant.components.media_player.RepeatMode]. *)
Module RepeatMode.
Inductive t : Set := OFF | ONE | ALL.

Definition eq_dec (x y : t) : {x = y} + {x <> y}.
Proof. decide equality. Defined.
End RepeatMode.

(** [aioesphomeapi.MediaPlayerCommand]: the members the module uses. *)
Module MediaPlayerCommand.
Inductive t : Set :=
| PAUSE | SEEK | VOLUME_SET | MUTE | UNMUTE
| PREVIOUS_TRACK | NEXT_TRACK | TURN_ON | TURN_OFF
| VOLUME_UP | VOLUME_DOWN | SELECT_SOURCE | STOP
| CLEAR_PLAYLIST | PLAY | SHUFFLE_SET | SELECT_SOUND_MODE.

Definition eq_dec (x y : t) : {x = y} + {x <> y}.
Proof. decide equality. Defined.
End MediaPlayerCommand.

(* ------------------------------------------------------------------ *)
(** ** Results of fallible code

    A Python call either returns a value or raises. *)

Inductive result (X A : Type) : Type :=
| Raise (e : X)
| Return (a : A).

Arguments Raise {X A} e.
Arguments Return {X A} a.

(* ------------------------------------------------------------------ *)
(** ** The enum mapper ([.enum_mapper.EsphomeEnumMapper]) *)

(** The exception of the mapper; it names the offending raw value. *)
Inductive MapperError (R : Type) : Type :=
| UnmappedValueError (raw : R).

Arguments UnmappedValueError {R} raw.

Section EnumMapper.
Variables E V : Type.
Variable E_eq_dec : forall x y : E, {x = y} + {x <> y}.
Variable V_eq_dec : forall x y : V, {x = y} + {x <> y}.

(** Modelled from the spec: the class [EsphomeEnumMapper] lives in
    [enum_mapper.py], which is not part of the sources at hand.  The
    spec describes it as a wrapper holding one fixed table, built once
    from the entries it is constructed with and queried in both
    directions. *)
Record EsphomeEnumMapper : Type := { mapping : list (E * V) }.

Fixpoint lookup_esphome (v : E) (tbl : list (E * V)) : option V :=
  match tbl with
  | [] => None
  | (e, d) :: rest =>
      if E_eq_dec v e then Some d else lookup_esphome v rest
  end.

Fixpoint lookup_hass (d : V) (tbl : list (E * V)) : option E :=
  match tbl with
  | [] => None
  | (e, d') :: rest =>
      if V_eq_dec d d' then Some e else lookup_hass d rest
  end.

(** Modelled from the spec: [EsphomeEnumMapper.from_esphome], the
    device-to-domain lookup of the missing [enum_mapper.py].  A value
    absent from the table makes it fail with an UnmappedValueError
    naming the raw value; it has no default. *)
Definition from_esphome (m : EsphomeEnumMapper) (value : E)
  : result (MapperError E) V :=
  match lookup_esphome value (mapping m) with
  | Some d => Return d
  | None => Raise (UnmappedValueError value)
  end.

(** Modelled from the spec: [EsphomeEnumMapper.from_hass], the reverse
    (domain-to-device) lookup of the missing [enum_mapper.py], with the
    same explicit failure path for a value the table does not have. *)
Definition from_hass (m : EsphomeEnumMapper) (value : V)
  : result (MapperError V) E :=
  match lookup_hass value (mapping m) with
  | Some e => Return e
  | None => Raise (UnmappedValueError value)
  end.

End EnumMapper.

Arguments Build_EsphomeEnumMapper {E V} mapping.
Arguments mapping {E V} e.

(* ------------------------------------------------------------------ *)
(** ** The two tables of the module *)

Definition _STATES
  : EsphomeEnumMapper EspMediaPlayerState.t MediaPlayerState.t :=
  Build_EsphomeEnumMapper
    [ (EspMediaPlayerState.IDLE, MediaPlayerState.IDLE);
      (EspMediaPlayerState.PLAYING, MediaPlayerState.PLAYING);
      (EspMediaPlayerState.PAUSED, MediaPlayerState.PAUSED);
      (EspMediaPlayerState.ON, MediaPlayerState.ON);
      (EspMediaPlayerState.OFF, MediaPlayerState.OFF);
      (EspMediaPlayerState.STANDBY, MediaPlayerState.STANDBY);
      (EspMediaPlayerState.BUFFERING, MediaPlayerState.BUFFERING) ].

Definition _REPEAT_MODES
  : EsphomeEnumMapper EspRepeatMode.t RepeatMode.t :=
  Build_EsphomeEnumMapper
    [ (EspRepeatMode.OFF, RepeatMode.OFF);
      (EspRepeatMode.ONE, RepeatMode.ONE);
      (EspRepeatMode.ALL, RepeatMode.ALL) ].

(** The lookups of each table, with the equality of its enums. *)
Definition states_from_esphome :=
  from_esphome EspMediaPlayerState.eq_dec _STATES.
Definition states_from_hass :=
  from_hass MediaPlayerState.eq_dec _STATES.
Definition repeat_from_esphome :=
  from_esphome EspRepeatMode.eq_dec _REPEAT_MODES.
Definition repeat_from_hass :=
  from_hass RepeatMode.eq_dec _REPEAT_MODES.

(* ------------------------------------------------------------------ *)
(** ** Data received from the device *)

(** [aioesphomeapi.MediaPlayerInfo]: the static capability descriptor,
    fixed at discovery.  [key] addresses the entity on its device. *)
Module MediaPlayerInfo.
Record t : Set := {
  key : Z;
  supports_pause : bool;
  supports_seek : bool;
  supports_volume_set : bool;
  supports_volume_mute : bool;
  supports_previous_track : bool;
  supports_next_track : bool;
  supports_turn_on : bool;
  supports_turn_off : bool;
  supports_play_media : bool;
  supports_volume_step : bool;
  supports_select_source : bool;
  supports_stop : bool;
  supports_clear_playlist : bool;
  supports_play : bool;
  supports_shuffle_set : bool;
  supports_select_sound_mode : bool;
  supports_repeat_set : bool
}.
End MediaPlayerInfo.

(** [aioesphomeapi.MediaPlayerEntityState]: the state snapshot.  A
    Python float is an IEEE 754 binary64 value. *)
Module MediaPlayerEntityState.
Record t : Set := {
  state : EspMediaPlayerState.t;
  volume : spec_float;
  muted : bool;
  source : string;
  source_list : list string;
  sound_mode : string;
  sound_mode_list : list string;
  repeat_mode : EspRepeatMode.t
}.
End MediaPlayerEntityState.

(** [MediaPlayerEntityFeature]: an [IntFlag] whose members are declared
    in the host's media-player component, outside this module.  The
    values are taken as a parameter; nothing below depends on them. *)
Module MediaPlayerEntityFeature.
Record t : Set := {
  PAUSE : Z;
  SEEK : Z;
  VOLUME_SET : Z;
  VOLUME_MUTE : Z;
  PREVIOUS_TRACK : Z;
  NEXT_TRACK : Z;
  TURN_ON : Z;
  TURN_OFF : Z;
  PLAY_MEDIA : Z;
  VOLUME_STEP : Z;
  SELECT_SOURCE : Z;
  STOP : Z;
  CLEAR_PLAYLIST : Z;
  PLAY : Z;
  SHUFFLE_SET : Z;
  SELECT_SOUND_MODE : Z;
  BROWSE_MEDIA : Z;
  REPEAT_SET : Z
}.
End MediaPlayerEntityFeature.

(* ------------------------------------------------------------------ *)
(** ** Calls to the device client *)

(** The keyword arguments the module passes to
    [client.media_player_command]. *)
Module kw.
Inductive t : Set :=
| command (c : MediaPlayerCommand.t)
| seek_position (position : spec_float)
| volume_level (volume : spec_float)
| source (name : string)
| sound_mode (name : string)
| shuffle_set (shuffle : bool)
| repeat (mode : EspRepeatMode.t)
| media_url (url : string).
End kw.

(** One submitted call: the positional device key and the keywords. *)
Record CommandRequest : Set := {
  request_key : Z;
  request_kwargs : list kw.t
}.

Fixpoint get_command (kwargs : list kw.t) : option MediaPlayerCommand.t :=
  match kwargs with
  | [] => None
  | kw.command c :: _ => Some c
  | _ :: rest => get_command rest
  end.


Fixpoint get_repeat (kwargs : list kw.t) : option EspRepeatMode.t :=
  match kwargs with
  | [] => None
  | kw.repeat r :: _ => Some r
  | _ :: rest => get_repeat rest
  end.

(** Keywords that carry a payload next to the discriminant. *)
Definition is_payload (k : kw.t) : bool :=
  match k with
  | kw.command _ => false
  | _ => true
  end.

(* ------------------------------------------------------------------ *)
(** ** Exceptions and the command monad *)

Inductive Exception : Type :=
| UnmappedState (e : MapperError EspMediaPlayerState.t)
| UnmappedDeviceRepeat (e : MapperError EspRepeatMode.t)
| UnmappedRepeat (e : MapperError RepeatMode.t)
| MediaSourceError (msg : string)
| ClientError (msg : string).

(** A command threads the list of calls submitted to the client so far
    (oldest first) and either returns or raises. *)
Definition Cmd (A : Type) : Type :=
  list CommandRequest -> result Exception A * list CommandRequest.

Definition ret {A} (a : A) : Cmd A := fun log => (Return a, log).

Definition bind {A B} (c : Cmd A) (k : A -> Cmd B) : Cmd B :=
  fun log =>
    match c log with
    | (Raise e, log') => (Raise e, log')
    | (Return a, log') => k a log'
    end.

Definition lift {A} (r : result Exception A) : Cmd A := fun log => (r, log).

Declare Scope cmd_scope.
Delimit Scope cmd_scope with cmd.
Notation "x <- c ;; k" := (bind c (fun x => k))
  (at level 100, c at next level, right associativity) : cmd_scope.
Local Open Scope cmd_scope.

(** The calls a command submits, run from an empty log. *)
Definition submitted {A} (c : Cmd A) : list CommandRequest := snd (c []).
Definition outcome {A} (c : Cmd A) : result Exception A := fst (c []).

(* ------------------------------------------------------------------ *)
(** ** The host's collaborators *)

(** What [media_source.async_resolve_media] returns. *)
Record PlayMedia : Set := { url : string; mime_type : string }.

(** The host functions the module calls; they live outside it and are
    taken as parameters.  Resolution can raise. *)
Record HomeAssistant : Type := {
  is_media_source_id : string -> bool;
  async_resolve_media : string -> string -> result Exception PlayMedia;
  async_process_play_media_url : string -> string
}.

(** [BrowseMedia]: a node of the host's media tree, with the content
    type the browse filter reads. *)
Unset Elimination Schemes.
Inductive BrowseMedia : Set :=
| BrowseNode (media_content_type : string) (title : string)
             (children : list BrowseMedia).
Set Elimination Schemes.

Definition media_content_type (item : BrowseMedia) : string :=
  match item with
  | BrowseNode content_type _ _ => content_type
  end.

(** [media_source.async_browse_media(hass, media_content_id,
    content_filter=...)]: a host function, taken as a parameter where it
    is called. *)
Definition MediaSourceBrowse : Type :=
  HomeAssistant -> option string -> (BrowseMedia -> bool) ->
  result Exception BrowseMedia.

(* ------------------------------------------------------------------ *)
(** ** The entity *)

Module EsphomeMediaPlayer.

(** The attributes of [self] the module reads.  [_state] is absent
    until the first snapshot arrives; [_client] answers a submitted
    call by returning or raising. *)
Record t : Type := {
  hass : HomeAssistant;
  entity_id : string;
  _static_info : MediaPlayerInfo.t;
  _state : option MediaPlayerEntityState.t;
  _client : CommandRequest -> result Exception unit
}.

(** [self._client.media_player_command(key, **kwargs)]: the call is
    submitted, then its outcome is awaited. *)
Definition media_player_command (self : t) (key : Z) (kwargs : list kw.t)
  : Cmd unit :=
  fun log =>
    let request := {| request_key := key; request_kwargs := kwargs |} in
    (_client self request, (log ++ [request])%list).

(** Modelled from the spec: the decorator [esphome_state_property] is
    declared in the package's [__init__.py], which is not part of the
    sources at hand.  The spec describes it as the guard against
    reading state before the first snapshot: the property is then
    absent, and raises nothing. *)
Definition esphome_state_property {R : Type}
    (func : MediaPlayerEntityState.t -> result Exception R) (self : t)
  : result Exception (option R) :=
  match _state self with
  | None => Return None
  | Some snapshot =>
      match func snapshot with
      | Raise e => Raise e
      | Return r => Return (Some r)
      end
  end.

Definition map_error {X A} (wrap : X -> Exception) (r : result X A)
  : result Exception A :=
  match r with
  | Raise e => Raise (wrap e)
  | Return a => Return a
  end.

(** *** Properties guarded by the snapshot *)

Definition state : t -> result Exception (option MediaPlayerState.t) :=
  esphome_state_property (fun _state =>
    map_error UnmappedState
      (states_from_esphome (MediaPlayerEntityState.state _state))).

Definition volume_level : t -> result Exception (option spec_float) :=
  esphome_state_property (fun _state =>
    Return (MediaPlayerEntityState.volume _state)).

Definition is_volume_muted : t -> result Exception (option bool) :=
  esphome_state_property (fun _state =>
    Return (MediaPlayerEntityState.muted _state)).

Definition source : t -> result Exception (option string) :=
  esphome_state_property (fun _state =>
    Return (MediaPlayerEntityState.source _state)).

Definition source_list : t -> result Exception (option (list string)) :=
  esphome_state_property (fun _state =>
    Return (MediaPlayerEntityState.source_list _state)).

Definition sound_mode : t -> result Exception (option string) :=
  esphome_state_property (fun _state =>
    Return (MediaPlayerEntityState.sound_mode _state)).

Definition sound_mode_list : t -> result Exception (option (list string)) :=
  esphome_state_property (fun _state =>
    Return (MediaPlayerEntityState.sound_mode_list _state)).

Definition repeat : t -> result Exception (option RepeatMode.t) :=
  esphome_state_property (fun _state =>
    map_error UnmappedDeviceRepeat
      (repeat_from_esphome (MediaPlayerEntityState.repeat_mode _state))).

(** *** The feature-flag projection *)

Section Features.
Variable F : MediaPlayerEntityFeature.t.

(** [supported_features]: not wrapped in the guard; [|=] on Python
    integers is [Z.lor]. *)
Definition supported_features (self : t) : Z :=
  let flags := 0 in
  let flags := if MediaPlayerInfo.supports_pause (_static_info self)
               then Z.lor flags (MediaPlayerEntityFeature.PAUSE F)
               else flags in
  let flags := if MediaPlayerInfo.supports_seek (_static_info self)
               then Z.lor flags (MediaPlayerEntityFeature.SEEK F)
               else flags in
  let flags := if MediaPlayerInfo.supports_volume_set (_static_info self)
               then Z.lor flags (MediaPlayerEntityFeature.VOLUME_SET F)
               else flags in
  let flags := if MediaPlayerInfo.supports_volume_mute (_static_info self)
               then Z.lor flags (MediaPlayerEntityFeature.VOLUME_MUTE F)
               else flags in
  let flags := if MediaPlayerInfo.supports_previous_track (_static_info self)
               then Z.lor flags (MediaPlayerEntityFeature.PREVIOUS_TRACK F)
               else flags in
  let flags := if MediaPlayerInfo.supports_next_track (_static_info self)
               then Z.lor flags (MediaPlayerEntityFeature.NEXT_TRACK F)
               else flags in
  let flags := if MediaPlayerInfo.supports_turn_on (_static_info self)
               then Z.lor flags (MediaPlayerEntityFeature.TURN_ON F)
               else flags in
  let flags := if MediaPlayerInfo.supports_turn_off (_static_info self)
               then Z.lor flags (MediaPlayerEntityFeature.TURN_OFF F)
               else flags in
  let flags := if MediaPlayerInfo.supports_play_media (_static_info self)
               then Z.lor flags
                      (Z.lor (MediaPlayerEntityFeature.PLAY_MEDIA F)
                             (MediaPlayerEntityFeature.BROWSE_MEDIA F))
               else flags in
  let flags := if MediaPlayerInfo.supports_volume_step (_static_info self)
               then Z.lor flags (MediaPlayerEntityFeature.VOLUME_STEP F)
               else flags in
  let flags := if MediaPlayerInfo.supports_select_source (_static_info self)
               then Z.lor flags (MediaPlayerEntityFeature.SELECT_SOURCE F)
               else flags in
  let flags := if MediaPlayerInfo.supports_stop (_static_info self)
               then Z.lor flags (MediaPlayerEntityFeature.STOP F)
               else flags in
  let flags := if MediaPlayerInfo.supports_clear_playlist (_static_info self)
               then Z.lor flags (MediaPlayerEntityFeature.CLEAR_PLAYLIST F)
               else flags in
  let flags := if MediaPlayerInfo.supports_play (_static_info self)
               then Z.lor flags (MediaPlayerEntityFeature.PLAY F)
               else flags in
  let flags := if MediaPlayerInfo.supports_shuffle_set (_static_info self)
               then Z.lor flags (MediaPlayerEntityFeature.SHUFFLE_SET F)
               else flags in
  let flags := if MediaPlayerInfo.supports_select_sound_mode (_static_info self)
               then Z.lor flags (MediaPlayerEntityFeature.SELECT_SOUND_MODE F)
               else flags in
  let flags := if MediaPlayerInfo.supports_repeat_set (_static_info self)
               then Z.lor flags (MediaPlayerEntityFeature.REPEAT_SET F)
               else flags in
  flags.
End Features.

(** *** The command methods *)

Definition async_media_pause (self : t) : Cmd unit :=
  media_player_command self (MediaPlayerInfo.key (_static_info self))
    [kw.command MediaPlayerCommand.PAUSE].

Definition async_media_seek (self : t) (position : spec_float) : Cmd unit :=
  media_player_command self (MediaPlayerInfo.key (_static_info self))
    [kw.command MediaPlayerCommand.SEEK; kw.seek_position position].

Definition async_set_volume_level (self : t) (volume : spec_float)
  : Cmd unit :=
  media_player_command self (MediaPlayerInfo.key (_static_info self))
    [kw.command MediaPlayerCommand.VOLUME_SET; kw.volume_level volume].

Definition async_mute_volume (self : t) (mute : bool) : Cmd unit :=
  media_player_command self (MediaPlayerInfo.key (_static_info self))
    [kw.command (if mute then MediaPlayerCommand.MUTE
                 else MediaPlayerCommand.UNMUTE)].

Definition async_media_previous_track (self : t) : Cmd unit :=
  media_player_command self (MediaPlayerInfo.key (_static_info self))
    [kw.command MediaPlayerCommand.PREVIOUS_TRACK].

Definition async_media_next_track (self : t) : Cmd unit :=
  media_player_command self (MediaPlayerInfo.key (_static_info self))
    [kw.command MediaPlayerCommand.NEXT_TRACK].

Definition async_turn_on (self : t) : Cmd unit :=
  media_player_command self (MediaPlayerInfo.key (_static_info self))
    [kw.command MediaPlayerCommand.TURN_ON].

Definition async_turn_off (self : t) : Cmd unit :=
  media_player_command self (MediaPlayerInfo.key (_static_info self))
    [kw.command MediaPlayerCommand.TURN_OFF].

(** The one method with more than a call: a media-source identifier is
    resolved first, the URL is processed by the host, and the call has
    the keyword [media_url] and no [command]. *)
Definition async_play_media (self : t) (media_type media_id : string)
  : Cmd unit :=
  media_id <-
    (if is_media_source_id (hass self) media_id
     then
       sourced_media <-
         lift (async_resolve_media (hass self) media_id (entity_id self)) ;;
       ret (url sourced_media)
     else ret media_id) ;;
  let media_id := async_process_play_media_url (hass self) media_id in
  media_player_command self (MediaPlayerInfo.key (_static_info self))
    [kw.media_url media_id].



Definition async_volume_up (self : t) : Cmd unit :=
  media_player_command self (MediaPlayerInfo.key (_static_info self))
    [kw.command MediaPlayerCommand.VOLUME_UP].

Definition async_volume_down (self : t) : Cmd unit :=
  media_player_command self (MediaPlayerInfo.key (_static_info self))
    [kw.command MediaPlayerCommand.VOLUME_DOWN].

Definition async_select_source (self : t) (source : string) : Cmd unit :=
  media_player_command self (MediaPlayerInfo.key (_static_info self))
    [kw.command MediaPlayerCommand.SELECT_SOURCE; kw.source source].

Definition async_media_stop (self : t) : Cmd unit :=
  media_player_command self (MediaPlayerInfo.key (_static_info self))
    [kw.command MediaPlayerCommand.STOP].

Definition async_clear_playlist (self : t) : Cmd unit :=
  media_player_command self (MediaPlayerInfo.key (_static_info self))
    [kw.command MediaPlayerCommand.CLEAR_PLAYLIST].

Definition async_media_play (self : t) : Cmd unit :=
  media_player_command self (MediaPlayerInfo.key (_static_info self))
    [kw.command MediaPlayerCommand.PLAY].

Definition async_set_shuffle (self : t) (shuffle : bool) : Cmd unit :=
  media_player_command self (MediaPlayerInfo.key (_static_info self))
    [kw.command MediaPlayerCommand.SHUFFLE_SET; kw.shuffle_set shuffle].

Definition async_select_sound_mode (self : t) (sound_mode : string)
  : Cmd unit :=
  media_player_command self (MediaPlayerInfo.key (_static_info self))
    [kw.command MediaPlayerCommand.SELECT_SOUND_MODE;
     kw.sound_mode sound_mode].

(** The argument [_REPEAT_MODES.from_hass(repeat)] is evaluated before
    the call is made. *)
Definition async_set_repeat (self : t) (repeat : RepeatMode.t) : Cmd unit :=
  mode <- lift (map_error UnmappedRepeat (repeat_from_hass repeat)) ;;
  media_player_command self (MediaPlayerInfo.key (_static_info self))
    [kw.command MediaPlayerCommand.SELECT_SOUND_MODE; kw.repeat mode].

End EsphomeMediaPlayer.

(* ------------------------------------------------------------------ *)
(** ** Invocations by the host

    The command methods the host can call, with their arguments. *)

Inductive Invocation : Type :=
| MediaPause
| MediaSeek (position : spec_float)
| SetVolumeLevel (volume : spec_float)
| MuteVolume (mute : bool)
| MediaPreviousTrack
| MediaNextTrack
| TurnOn
| TurnOff
| PlayMediaCall (media_type media_id : string)
| VolumeUp
| VolumeDown
| SelectSource (source : string)
| MediaStop
| ClearPlaylist
| MediaPlay
| SetShuffle (shuffle : bool)
| SelectSoundMode (sound_mode : string)
| SetRepeat (repeat : RepeatMode.t).

Definition invoke (self : EsphomeMediaPlayer.t) (i : Invocation) : Cmd unit :=
  match i with
  | MediaPause => EsphomeMediaPlayer.async_media_pause self
  | MediaSeek position => EsphomeMediaPlayer.async_media_seek self position
  | SetVolumeLevel volume =>
      EsphomeMediaPlayer.async_set_volume_level self volume
  | MuteVolume mute => EsphomeMediaPlayer.async_mute_volume self mute
  | MediaPreviousTrack => EsphomeMediaPlayer.async_media_previous_track self
  | MediaNextTrack => EsphomeMediaPlayer.async_media_next_track self
  | TurnOn => EsphomeMediaPlayer.async_turn_on self
  | TurnOff => EsphomeMediaPlayer.async_turn_off self
  | PlayMediaCall media_type media_id =>
      EsphomeMediaPlayer.async_play_media self media_type media_id
  | VolumeUp => EsphomeMediaPlayer.async_volume_up self
  | VolumeDown => EsphomeMediaPlayer.async_volume_down self
  | SelectSource source => EsphomeMediaPlayer.async_select_source self source
  | MediaStop => EsphomeMediaPlayer.async_media_stop self
  | ClearPlaylist => EsphomeMediaPlayer.async_clear_playlist self
  | MediaPlay => EsphomeMediaPlayer.async_media_play self
  | SetShuffle shuffle => EsphomeMediaPlayer.async_set_shuffle self shuffle
  | SelectSoundMode sound_mode =>
      EsphomeMediaPlayer.async_select_sound_mode self sound_mode
  | SetRepeat repeat => EsphomeMediaPlayer.async_set_repeat self repeat
  end.

Definition is_play_media (i : Invocation) : bool :=
  match i with
  | PlayMediaCall _ _ => true
  | _ => false
  end.

(* ------------------------------------------------------------------ *)
(** ** Capabilities, one by one

    The boolean fields of the descriptor as a finite type, to speak of
    flipping a single one. *)

Inductive Capability : Set :=
| CapPause | CapSeek | CapVolumeSet | CapVolumeMute
| CapPreviousTrack | CapNextTrack | CapTurnOn | CapTurnOff
| CapPlayMedia | CapVolumeStep | CapSelectSource | CapStop
| CapClearPlaylist | CapPlay | CapShuffleSet | CapSelectSoundMode
| CapRepeatSet.

Definition Capability_eq_dec (x y : Capability) : {x = y} + {x <> y}.
Proof. decide equality. Defined.

(** In the order [supported_features] tests them. *)
Definition all_capabilities : list Capability :=
  [ CapPause; CapSeek; CapVolumeSet; CapVolumeMute;
    CapPreviousTrack; CapNextTrack; CapTurnOn; CapTurnOff;
    CapPlayMedia; CapVolumeStep; CapSelectSource; CapStop;
    CapClearPlaylist; CapPlay; CapShuffleSet; CapSelectSoundMode;
    CapRepeatSet ].

Definition get_capability (c : Capability) (info : MediaPlayerInfo.t) : bool :=
  match c with
  | CapPause => MediaPlayerInfo.supports_pause info
  | CapSeek => MediaPlayerInfo.supports_seek info
  | CapVolumeSet => MediaPlayerInfo.supports_volume_set info
  | CapVolumeMute => MediaPlayerInfo.supports_volume_mute info
  | CapPreviousTrack => MediaPlayerInfo.supports_previous_track info
  | CapNextTrack => MediaPlayerInfo.supports_next_track info
  | CapTurnOn => MediaPlayerInfo.supports_turn_on info
  | CapTurnOff => MediaPlayerInfo.supports_turn_off info
  | CapPlayMedia => MediaPlayerInfo.supports_play_media info
  | CapVolumeStep => MediaPlayerInfo.supports_volume_step info
  | CapSelectSource => MediaPlayerInfo.supports_select_source info
  | CapStop => MediaPlayerInfo.supports_stop info
  | CapClearPlaylist => MediaPlayerInfo.supports_clear_playlist info
  | CapPlay => MediaPlayerInfo.supports_play info
  | CapShuffleSet => MediaPlayerInfo.supports_shuffle_set info
  | CapSelectSoundMode => MediaPlayerInfo.supports_select_sound_mode info
  | CapRepeatSet => MediaPlayerInfo.supports_repeat_set info
  end.

(** The descriptor with one field replaced, every other field kept. *)
Definition set_capability (c : Capability) (b : bool)
    (info : MediaPlayerInfo.t) : MediaPlayerInfo.t :=
  let field c' := if Capability_eq_dec c c' then b
                  else get_capability c' info in
  {| MediaPlayerInfo.key := MediaPlayerInfo.key info;
     MediaPlayerInfo.supports_pause := field CapPause;
     MediaPlayerInfo.supports_seek := field CapSeek;
     MediaPlayerInfo.supports_volume_set := field CapVolumeSet;
     MediaPlayerInfo.supports_volume_mute := field CapVolumeMute;
     MediaPlayerInfo.supports_previous_track := field CapPreviousTrack;
     MediaPlayerInfo.supports_next_track := field CapNextTrack;
     MediaPlayerInfo.supports_turn_on := field CapTurnOn;
     MediaPlayerInfo.supports_turn_off := field CapTurnOff;
     MediaPlayerInfo.supports_play_media := field CapPlayMedia;
     MediaPlayerInfo.supports_volume_step := field CapVolumeStep;
     MediaPlayerInfo.supports_select_source := field CapSelectSource;
     MediaPlayerInfo.supports_stop := field CapStop;
     MediaPlayerInfo.supports_clear_playlist := field CapClearPlaylist;
     MediaPlayerInfo.supports_play := field CapPlay;
     MediaPlayerInfo.supports_shuffle_set := field CapShuffleSet;
     MediaPlayerInfo.supports_select_sound_mode := field CapSelectSoundMode;
     MediaPlayerInfo.supports_repeat_set := field CapRepeatSet |}.

(** The entity with its descriptor replaced. *)
Definition with_static_info (self : EsphomeMediaPlayer.t)
    (info : MediaPlayerInfo.t) : EsphomeMediaPlayer.t :=
  {| EsphomeMediaPlayer.hass := EsphomeMediaPlayer.hass self;
     EsphomeMediaPlayer.entity_id := EsphomeMediaPlayer.entity_id self;
     EsphomeMediaPlayer._static_info := info;
     EsphomeMediaPlayer._state := EsphomeMediaPlayer._state self;
     EsphomeMediaPlayer._client := EsphomeMediaPlayer._client self |}.

(** The bits [supported_features] associates with each capability. *)
Definition flag_of (F : MediaPlayerEntityFeature.t) (c : Capability) : Z :=
  match c with
  | CapPause => MediaPlayerEntityFeature.PAUSE F
  | CapSeek => MediaPlayerEntityFeature.SEEK F
  | CapVolumeSet => MediaPlayerEntityFeature.VOLUME_SET F
  | CapVolumeMute => MediaPlayerEntityFeature.VOLUME_MUTE F
  | CapPreviousTrack => MediaPlayerEntityFeature.PREVIOUS_TRACK F
  | CapNextTrack => MediaPlayerEntityFeature.NEXT_TRACK F
  | CapTurnOn => MediaPlayerEntityFeature.TURN_ON F
  | CapTurnOff => MediaPlayerEntityFeature.TURN_OFF F
  | CapPlayMedia =>
      Z.lor (MediaPlayerEntityFeature.PLAY_MEDIA F)
            (MediaPlayerEntityFeature.BROWSE_MEDIA F)
  | CapVolumeStep => MediaPlayerEntityFeature.VOLUME_STEP F
  | CapSelectSource => MediaPlayerEntityFeature.SELECT_SOURCE F
  | CapStop => MediaPlayerEntityFeature.STOP F
  | CapClearPlaylist => MediaPlayerEntityFeature.CLEAR_PLAYLIST F
  | CapPlay => MediaPlayerEntityFeature.PLAY F
  | CapShuffleSet => MediaPlayerEntityFeature.SHUFFLE_SET F
  | CapSelectSoundMode => MediaPlayerEntityFeature.SELECT_SOUND_MODE F
  | CapRepeatSet => MediaPlayerEntityFeature.REPEAT_SET F
  end.

(** Whether a list of capabilities has [c]. *)
Definition mentions (c : Capability) (l : list Capability) : bool :=
  existsb (fun c' => if Capability_eq_dec c c' then true else false) l.

(** One conditional of [supported_features]. *)
Definition feature_step (F : MediaPlayerEntityFeature.t)
    (info : MediaPlayerInfo.t) (flags : Z) (c : Capability) : Z :=
  if get_capability c info then Z.lor flags (flag_of F c) else flags.

(* ------------------------------------------------------------------ *)
(** ** Concrete values, to run the definitions on *)

(** The numbering of the feature members in the host's media-player
    component: one bit each. *)
Definition hass_features : MediaPlayerEntityFeature.t :=
  {| MediaPlayerEntityFeature.PAUSE := 1;
     MediaPlayerEntityFeature.SEEK := 2;
     MediaPlayerEntityFeature.VOLUME_SET := 4;
     MediaPlayerEntityFeature.VOLUME_MUTE := 8;
     MediaPlayerEntityFeature.PREVIOUS_TRACK := 16;
     MediaPlayerEntityFeature.NEXT_TRACK := 32;
     MediaPlayerEntityFeature.TURN_ON := 128;
     MediaPlayerEntityFeature.TURN_OFF := 256;
     MediaPlayerEntityFeature.PLAY_MEDIA := 512;
     MediaPlayerEntityFeature.VOLUME_STEP := 1024;
     MediaPlayerEntityFeature.SELECT_SOURCE := 2048;
     MediaPlayerEntityFeature.STOP := 4096;
     MediaPlayerEntityFeature.CLEAR_PLAYLIST := 8192;
     MediaPlayerEntityFeature.PLAY := 16384;
     MediaPlayerEntityFeature.SHUFFLE_SET := 32768;
     MediaPlayerEntityFeature.SELECT_SOUND_MODE := 65536;
     MediaPlayerEntityFeature.BROWSE_MEDIA := 131072;
     MediaPlayerEntityFeature.REPEAT_SET := 262144 |}.

(** A descriptor with every capability false. *)
Definition no_capabilities (key : Z) : MediaPlayerInfo.t :=
  {| MediaPlayerInfo.key := key;
     MediaPlayerInfo.supports_pause := false;
     MediaPlayerInfo.supports_seek := false;
     MediaPlayerInfo.supports_volume_set := false;
     MediaPlayerInfo.supports_volume_mute := false;
     MediaPlayerInfo.supports_previous_track := false;
     MediaPlayerInfo.supports_next_track := false;
     MediaPlayerInfo.supports_turn_on := false;
     MediaPlayerInfo.supports_turn_off := false;
     MediaPlayerInfo.supports_play_media := false;
     MediaPlayerInfo.supports_volume_step := false;
     MediaPlayerInfo.supports_select_source := false;
     MediaPlayerInfo.supports_stop := false;
     MediaPlayerInfo.supports_clear_playlist := false;
     MediaPlayerInfo.supports_play := false;
     MediaPlayerInfo.supports_shuffle_set := false;
     MediaPlayerInfo.supports_select_sound_mode := false;
     MediaPlayerInfo.supports_repeat_set := false |}.

(** A speaker that can pause and play media, and nothing else. *)
Definition speaker_info : MediaPlayerInfo.t :=
  set_capability CapPlayMedia true
    (set_capability CapPause true (no_capabilities 42)).

(** A host whose media source knows one local file and whose URL
    processing makes a path absolute. *)
Definition demo_hass : HomeAssistant :=
  {| is_media_source_id := fun media_id =>
       String.prefix "media-source://" media_id;
     async_resolve_media := fun media_id _ =>
       if String.eqb media_id "media-source://media_source/local/song.mp3"
       then Return {| url := "/media/local/song.mp3";
                      mime_type := "audio/mpeg" |}
       else Raise (MediaSourceError media_id);
     async_process_play_media_url := fun media_id =>
       if String.prefix "/" media_id
       then "http://homeassistant.local:8123" ++ media_id
       else media_id |}.

Definition demo_snapshot : MediaPlayerEntityState.t :=
  {| MediaPlayerEntityState.state := EspMediaPlayerState.PLAYING;
     MediaPlayerEntityState.volume := S754_finite false 1 (-1);
     MediaPlayerEntityState.muted := false;
     MediaPlayerEntityState.source := "aux";
     MediaPlayerEntityState.source_list := ["aux"; "radio"];
     MediaPlayerEntityState.sound_mode := "stereo";
     MediaPlayerEntityState.sound_mode_list := ["stereo"];
     MediaPlayerEntityState.repeat_mode := EspRepeatMode.OFF |}.

(** The speaker before its first snapshot, on a client that accepts
    every call. *)
Definition demo_player : EsphomeMediaPlayer.t :=
  {| EsphomeMediaPlayer.hass := demo_hass;
     EsphomeMediaPlayer.entity_id := "media_player.speaker";
     EsphomeMediaPlayer._static_info := speaker_info;
     EsphomeMediaPlayer._state := None;
     EsphomeMediaPlayer._client := fun _ => Return tt |}.

(** The same speaker once a snapshot has arrived. *)
Definition demo_player_playing : EsphomeMediaPlayer.t :=
  {| EsphomeMediaPlayer.hass := demo_hass;
     EsphomeMediaPlayer.entity_id := "media_player.speaker";
     EsphomeMediaPlayer._static_info := speaker_info;
     EsphomeMediaPlayer._state := Some demo_snapshot;
     EsphomeMediaPlayer._client := fun _ => Raise (ClientError "offline") |}.

(* ------------------------------------------------------------------ *)
(** ** Notions used to state properties of the projection and of the
       commands *)

(** Bit [i] of what one capability contributes to the mask. *)
Definition contributes (F : MediaPlayerEntityFeature.t)
    (info : MediaPlayerInfo.t) (i : Z) (c : Capability) : bool :=
  get_capability c info && Z.testbit (flag_of F c) i.

(** No two capabilities have a flag bit in common. *)
Definition flags_disjoint (F : MediaPlayerEntityFeature.t) : Prop :=
  forall c c', c <> c' -> Z.land (flag_of F c) (flag_of F c') = 0.

(** The flag of every capability has a bit. *)
Definition flags_nonzero (F : MediaPlayerEntityFeature.t) : Prop :=
  forall c, flag_of F c <> 0.

(** The discriminants of the calls a command submits, call by call. *)
Definition discriminants {A} (c : Cmd A) : list (option MediaPlayerCommand.t) :=
  map (fun req => get_command (request_kwargs req)) (submitted c).

(** Whether two invocations are of the same method. *)
Definition same_method (i j : Invocation) : bool :=
  match i, j with
  | MediaPause, MediaPause => true
  | MediaSeek _, MediaSeek _ => true
  | SetVolumeLevel _, SetVolumeLevel _ => true
  | MuteVolume _, MuteVolume _ => true
  | MediaPreviousTrack, MediaPreviousTrack => true
  | MediaNextTrack, MediaNextTrack => true
  | TurnOn, TurnOn => true
  | TurnOff, TurnOff => true
  | PlayMediaCall _ _, PlayMediaCall _ _ => true
  | VolumeUp, VolumeUp => true
  | VolumeDown, VolumeDown => true
  | SelectSource _, SelectSource _ => true
  | MediaStop, MediaStop => true
  | ClearPlaylist, ClearPlaylist => true
  | MediaPlay, MediaPlay => true
  | SetShuffle _, SetShuffle _ => true
  | SelectSoundMode _, SelectSoundMode _ => true
  | SetRepeat _, SetRepeat _ => true
  | _, _ => false
  end.


(** A host media tree with one track, and a browse function that
    answers with it whatever it is asked. *)
Definition demo_track : BrowseMedia :=
  BrowseNode "audio/mpeg" "song.mp3" [].

Definition demo_browse : MediaSourceBrowse :=
  fun _ _ _ => Return (BrowseNode "app" "Local media" [demo_track]).

(** The demo speaker with the snapshot and a client that accepts. *)
Definition demo_player_online : EsphomeMediaPlayer.t :=
  {| EsphomeMediaPlayer.hass := demo_hass;
     EsphomeMediaPlayer.entity_id := "media_player.speaker";
     EsphomeMediaPlayer._static_info := speaker_info;
     EsphomeMediaPlayer._state := Some demo_snapshot;
     EsphomeMediaPlayer._client := fun _ => Return tt |}.

(* ================================================================== *)
(** * Theorems *)

Unset Implicit Arguments.

(* ------------------------------------------------------------------ *)
(** ** The enum mapper *)

Section EnumMapperFacts.
Variables E V : Type.
Variable E_eq_dec : forall x y : E, {x = y} + {x <> y}.
Variable V_eq_dec : forall x y : V, {x = y} + {x <> y}.

Lemma lookup_esphome_absent (v : E) (tbl : list (E * V)) :
  ~ In v (map fst tbl) -> lookup_esphome E_eq_dec v tbl = None.
Proof.
  induction tbl as [| [e d] rest IH]; simpl; intros Hnin.
  - reflexivity.
  - destruct (E_eq_dec v e) as [Heq | Hne].
    + exfalso. apply Hnin. left. symmetry. exact Heq.
    + apply IH. intros Hin. apply Hnin. right. exact Hin.
Qed.

Lemma lookup_esphome_In (v : E) (d : V) (tbl : list (E * V)) :
  lookup_esphome E_eq_dec v tbl = Some d -> In (v, d) tbl.
Proof.
  induction tbl as [| [e d'] rest IH]; simpl; intros Hl.
  - discriminate.
  - destruct (E_eq_dec v e) as [Heq | Hne].
    + left. congruence.
    + right. exact (IH Hl).
Qed.

Lemma lookup_hass_In (v : E) (d : V) (tbl : list (E * V)) :
  lookup_hass V_eq_dec d tbl = Some v -> In (v, d) tbl.
Proof.
  induction tbl as [| [e d'] rest IH]; simpl; intros Hl.
  - discriminate.
  - destruct (V_eq_dec d d') as [Heq | Hne].
    + left. congruence.
    + right. exact (IH Hl).
Qed.

(** With no device value listed twice, the lookup finds the domain
    value of every listed pair. *)
Lemma lookup_esphome_of_entry (v : E) (d : V) (tbl : list (E * V)) :
  NoDup (map fst tbl) -> In (v, d) tbl ->
  lookup_esphome E_eq_dec v tbl = Some d.
Proof.
  induction tbl as [| [e d'] rest IH]; simpl; intros Hnd Hin.
  - contradiction.
  - inversion Hnd as [| x xs Hnotin Hnd']; subst.
    destruct (E_eq_dec v e) as [Heq | Hne].
    + destruct Hin as [Hhd | Htl].
      * congruence.
      * exfalso. apply Hnotin. subst e.
        change v with (fst (v, d)). apply in_map. exact Htl.
    + destruct Hin as [Hhd | Htl]; [congruence | exact (IH Hnd' Htl)].
Qed.

(** The same for the reverse lookup, with no domain value listed
    twice. *)
Lemma lookup_hass_of_entry (v : E) (d : V) (tbl : list (E * V)) :
  NoDup (map snd tbl) -> In (v, d) tbl ->
  lookup_hass V_eq_dec d tbl = Some v.
Proof.
  induction tbl as [| [e d'] rest IH]; simpl; intros Hnd Hin.
  - contradiction.
  - inversion Hnd as [| x xs Hnotin Hnd']; subst.
    destruct (V_eq_dec d d') as [Heq | Hne].
    + destruct Hin as [Hhd | Htl].
      * congruence.
      * exfalso. apply Hnotin. subst d'.
        change d with (snd (v, d)). apply in_map. exact Htl.
    + destruct Hin as [Hhd | Htl]; [congruence | exact (IH Hnd' Htl)].
Qed.

Lemma in_map_fst_entry (v : E) (tbl : list (E * V)) :
  In v (map fst tbl) -> exists d, In (v, d) tbl.
Proof.
  intros Hin. apply in_map_iff in Hin.
  destruct Hin as [[e d] [Heq Hin]]. simpl in Heq. subst e.
  exists d. exact Hin.
Qed.

Lemma in_map_snd_entry (d : V) (tbl : list (E * V)) :
  In d (map snd tbl) -> exists v, In (v, d) tbl.
Proof.
  intros Hin. apply in_map_iff in Hin.
  destruct Hin as [[e d'] [Heq Hin]]. simpl in Heq. subst d'.
  exists e. exact Hin.
Qed.

(** A table that lists no value twice on either side is a bijection
    between its two columns. *)
Lemma mapper_roundtrip_esphome (m : EsphomeEnumMapper E V) (v : E) :
  NoDup (map fst (mapping m)) -> NoDup (map snd (mapping m)) ->
  In v (map fst (mapping m)) ->
  exists d, from_esphome E_eq_dec m v = Return d
            /\ from_hass V_eq_dec m d = Return v.
Proof.
  intros Hk Hv Hin.
  destruct (in_map_fst_entry v (mapping m) Hin) as [d Hentry].
  exists d. unfold from_esphome, from_hass.
  rewrite (lookup_esphome_of_entry v d (mapping m) Hk Hentry).
  rewrite (lookup_hass_of_entry v d (mapping m) Hv Hentry).
  split; reflexivity.
Qed.

Lemma mapper_roundtrip_hass (m : EsphomeEnumMapper E V) (d : V) :
  NoDup (map fst (mapping m)) -> NoDup (map snd (mapping m)) ->
  In d (map snd (mapping m)) ->
  exists v, from_hass V_eq_dec m d = Return v
            /\ from_esphome E_eq_dec m v = Return d.
Proof.
  intros Hk Hv Hin.
  destruct (in_map_snd_entry d (mapping m) Hin) as [v Hentry].
  exists v. unfold from_esphome, from_hass.
  rewrite (lookup_esphome_of_entry v d (mapping m) Hk Hentry).
  rewrite (lookup_hass_of_entry v d (mapping m) Hv Hentry).
  split; reflexivity.
Qed.

(** C4. For every device-side value absent from the mapping table, the
    device-to-domain lookup fails with an UnmappedValueError that names
    the offending raw value; it returns no default and no None. *)
Theorem from_esphome_unmapped (m : EsphomeEnumMapper E V) (value : E) :
  ~ In value (map fst (mapping m)) ->
  from_esphome E_eq_dec m value = Raise (UnmappedValueError value)
  /\ (forall d : V, from_esphome E_eq_dec m value <> Return d).
Proof.
  intros Habsent. unfold from_esphome.
  rewrite (lookup_esphome_absent value (mapping m) Habsent).
  split; [reflexivity | intros d Hd; discriminate Hd].
Qed.

End EnumMapperFacts.

Ltac nodup_enum :=
  repeat (constructor; [simpl; intuition discriminate |]); constructor.

Lemma _STATES_device_side_distinct : NoDup (map fst (mapping _STATES)).
Proof. nodup_enum. Qed.

Lemma _STATES_domain_side_distinct : NoDup (map snd (mapping _STATES)).
Proof. nodup_enum. Qed.

Lemma _REPEAT_MODES_device_side_distinct :
  NoDup (map fst (mapping _REPEAT_MODES)).
Proof. nodup_enum. Qed.

Lemma _REPEAT_MODES_domain_side_distinct :
  NoDup (map snd (mapping _REPEAT_MODES)).
Proof. nodup_enum. Qed.

(** The protocol's zero play state is not listed in [_STATES]: reading
    the state of a device that reports it raises. *)
Lemma from_esphome_unmapped_witness :
  ~ In EspMediaPlayerState.NONE (map fst (mapping _STATES))
  /\ states_from_esphome EspMediaPlayerState.NONE
     = Raise (UnmappedValueError EspMediaPlayerState.NONE).
Proof.
  assert (Habsent : ~ In EspMediaPlayerState.NONE (map fst (mapping _STATES))).
  { simpl. intuition discriminate. }
  split.
  - exact Habsent.
  - exact (proj1 (from_esphome_unmapped _ _ EspMediaPlayerState.eq_dec
                    _STATES EspMediaPlayerState.NONE Habsent)).
Defined.

(** The failure is not swallowed on the way up: once a snapshot is
    there, the [state] property raises the mapper's error for a play
    state the table does not list. *)
Lemma state_unmapped_propagates (self : EsphomeMediaPlayer.t)
    (snapshot : MediaPlayerEntityState.t) :
  EsphomeMediaPlayer._state self = Some snapshot ->
  ~ In (MediaPlayerEntityState.state snapshot) (map fst (mapping _STATES)) ->
  EsphomeMediaPlayer.state self
  = Raise (UnmappedState
             (UnmappedValueError (MediaPlayerEntityState.state snapshot))).
Proof.
  intros Hsnap Habsent.
  unfold EsphomeMediaPlayer.state, EsphomeMediaPlayer.esphome_state_property,
    states_from_esphome, from_esphome.
  rewrite Hsnap.
  rewrite (lookup_esphome_absent _ _ EspMediaPlayerState.eq_dec _ _ Habsent).
  reflexivity.
Qed.

(** C9. Every device play state listed in [_STATES] maps to a domain
    state whose reverse lookup gives the device state back, and the same
    holds for the repeat modes of [_REPEAT_MODES]; read from the domain
    side, every listed domain value maps to a device value whose forward
    lookup gives it back.  Each table is a bijection on its entries. *)
Theorem enum_tables_roundtrip :
  (forall v : EspMediaPlayerState.t,
      In v (map fst (mapping _STATES)) ->
      exists d, states_from_esphome v = Return d
                /\ states_from_hass d = Return v)
  /\ (forall d : MediaPlayerState.t,
      In d (map snd (mapping _STATES)) ->
      exists v, states_from_hass d = Return v
                /\ states_from_esphome v = Return d)
  /\ (forall v : EspRepeatMode.t,
      In v (map fst (mapping _REPEAT_MODES)) ->
      exists d, repeat_from_esphome v = Return d
                /\ repeat_from_hass d = Return v)
  /\ (forall d : RepeatMode.t,
      In d (map snd (mapping _REPEAT_MODES)) ->
      exists v, repeat_from_hass d = Return v
                /\ repeat_from_esphome v = Return d).
Proof.
  repeat split.
  - intros v Hin. apply mapper_roundtrip_esphome;
      auto using _STATES_device_side_distinct, _STATES_domain_side_distinct.
  - intros d Hin. apply mapper_roundtrip_hass;
      auto using _STATES_device_side_distinct, _STATES_domain_side_distinct.
  - intros v Hin. apply mapper_roundtrip_esphome;
      auto using _REPEAT_MODES_device_side_distinct,
                 _REPEAT_MODES_domain_side_distinct.
  - intros d Hin. apply mapper_roundtrip_hass;
      auto using _REPEAT_MODES_device_side_distinct,
                 _REPEAT_MODES_domain_side_distinct.
Qed.

Lemma enum_tables_roundtrip_witness :
  In EspMediaPlayerState.PLAYING (map fst (mapping _STATES))
  /\ exists d, states_from_esphome EspMediaPlayerState.PLAYING = Return d
               /\ states_from_hass d = Return EspMediaPlayerState.PLAYING.
Proof.
  assert (Hin : In EspMediaPlayerState.PLAYING (map fst (mapping _STATES))).
  { simpl. auto. }
  split.
  - exact Hin.
  - exact (proj1 enum_tables_roundtrip EspMediaPlayerState.PLAYING Hin).
Defined.

(* ------------------------------------------------------------------ *)
(** ** The feature-flag projection *)

Section FeatureFacts.
Variable F : MediaPlayerEntityFeature.t.

(** The chain of conditionals is a left fold of [feature_step] over
    the capabilities, started at zero. *)
Lemma supported_features_fold (self : EsphomeMediaPlayer.t) :
  EsphomeMediaPlayer.supported_features F self
  = fold_left (feature_step F (EsphomeMediaPlayer._static_info self))
              all_capabilities 0.
Proof. reflexivity. Qed.

Lemma get_set_capability_same (c : Capability) (b : bool)
    (info : MediaPlayerInfo.t) :
  get_capability c (set_capability c b info) = b.
Proof. destruct c; reflexivity. Qed.

Lemma get_set_capability_other (c c' : Capability) (b : bool)
    (info : MediaPlayerInfo.t) :
  c <> c' -> get_capability c' (set_capability c b info) = get_capability c' info.
Proof. intros Hne. destruct c, c'; try reflexivity; congruence. Qed.

Lemma feature_step_on (info : MediaPlayerInfo.t) (a : Z) (c : Capability) :
  get_capability c info = true ->
  feature_step F info a c = Z.lor a (flag_of F c).
Proof. intros Hon. unfold feature_step. rewrite Hon. reflexivity. Qed.

Lemma feature_step_off (info : MediaPlayerInfo.t) (a : Z) (c : Capability) :
  get_capability c info = false -> feature_step F info a c = a.
Proof. intros Hoff. unfold feature_step. rewrite Hoff. reflexivity. Qed.

Lemma feature_step_set_other (info : MediaPlayerInfo.t) (a : Z)
    (c c' : Capability) (b : bool) :
  c <> c' ->
  feature_step F (set_capability c b info) a c' = feature_step F info a c'.
Proof.
  intros Hne. unfold feature_step.
  rewrite (get_set_capability_other c c' b info Hne). reflexivity.
Qed.

Lemma feature_step_lor (info : MediaPlayerInfo.t) (a x : Z)
    (c : Capability) :
  feature_step F info (Z.lor a x) c = Z.lor (feature_step F info a c) x.
Proof.
  unfold feature_step. destruct (get_capability c info).
  - rewrite <- !Z.lor_assoc. f_equal. apply Z.lor_comm.
  - reflexivity.
Qed.

(** Bits already accumulated pass through the rest of the chain. *)
Lemma fold_feature_step_lor (info : MediaPlayerInfo.t)
    (l : list Capability) :
  forall a x,
    fold_left (feature_step F info) l (Z.lor a x)
    = Z.lor (fold_left (feature_step F info) l a) x.
Proof.
  induction l as [| c l IH]; intros a x; simpl.
  - reflexivity.
  - rewrite feature_step_lor. apply IH.
Qed.

Lemma mentions_all (c : Capability) : mentions c all_capabilities = true.
Proof. destruct c; reflexivity. Qed.

(** Turning one capability on changes the fold by its flag, when the
    chain tests that capability at all. *)
Lemma fold_feature_step_set (info : MediaPlayerInfo.t) (c : Capability) :
  get_capability c info = false ->
  forall l a,
    fold_left (feature_step F (set_capability c true info)) l a
    = Z.lor (fold_left (feature_step F info) l a)
            (if mentions c l then flag_of F c else 0).
Proof.
  intros Hoff. induction l as [| c1 l IH]; intros a.
  - simpl. symmetry. apply Z.lor_0_r.
  - cbn [fold_left mentions existsb]. fold (mentions c l).
    destruct (Capability_eq_dec c c1) as [Heq | Hne].
    + subst c1. cbn [orb].
      rewrite (feature_step_on _ a c (get_set_capability_same c true info)).
      rewrite (feature_step_off info a c Hoff).
      rewrite IH, fold_feature_step_lor.
      destruct (mentions c l).
      * rewrite <- Z.lor_assoc, Z.lor_diag. reflexivity.
      * apply Z.lor_0_r.
    + cbn [orb].
      rewrite (feature_step_set_other info a c c1 true Hne).
      apply IH.
Qed.

Lemma fold_feature_step_none (info : MediaPlayerInfo.t) :
  (forall c, get_capability c info = false) ->
  forall l a, fold_left (feature_step F info) l a = a.
Proof.
  intros Hnone. induction l as [| c l IH]; intros a; simpl.
  - reflexivity.
  - rewrite (feature_step_off info a c (Hnone c)). apply IH.
Qed.

(** Bits of a flag that meets no flag of an enabled capability are
    not in the projection. *)
Lemma fold_feature_step_land (info : MediaPlayerInfo.t) (x : Z)
    (l : list Capability) :
  (forall c, In c l -> get_capability c info = true ->
             Z.land (flag_of F c) x = 0) ->
  forall a, Z.land (fold_left (feature_step F info) l a) x = Z.land a x.
Proof.
  induction l as [| c l IH]; intros Hdisj a; simpl.
  - reflexivity.
  - rewrite IH by (intros c' Hin; apply Hdisj; right; exact Hin).
    unfold feature_step.
    destruct (get_capability c info) eqn:Hc.
    + rewrite Z.land_lor_distr_l.
      rewrite (Hdisj c (or_introl eq_refl) Hc). apply Z.lor_0_r.
    + reflexivity.
Qed.

End FeatureFacts.

(** C5. The projection is monotonic in the descriptor: turning a single
    capability from false to true gives the old mask or-ed with that
    capability's flag bits, so those bits are set, every bit outside them
    is unchanged and no bit is lost; a descriptor with every capability
    false projects to zero. *)
Theorem supported_features_monotonic (F : MediaPlayerEntityFeature.t) :
  (forall (self : EsphomeMediaPlayer.t) (c : Capability),
      get_capability c (EsphomeMediaPlayer._static_info self) = false ->
      let self' :=
        with_static_info self
          (set_capability c true (EsphomeMediaPlayer._static_info self)) in
      EsphomeMediaPlayer.supported_features F self'
      = Z.lor (EsphomeMediaPlayer.supported_features F self) (flag_of F c)
      /\ (forall i, Z.testbit (flag_of F c) i = true ->
            Z.testbit (EsphomeMediaPlayer.supported_features F self') i = true)
      /\ (forall i, Z.testbit (flag_of F c) i = false ->
            Z.testbit (EsphomeMediaPlayer.supported_features F self') i
            = Z.testbit (EsphomeMediaPlayer.supported_features F self) i)
      /\ (forall i,
            Z.testbit (EsphomeMediaPlayer.supported_features F self) i = true ->
            Z.testbit (EsphomeMediaPlayer.supported_features F self') i = true))
  /\ (forall self : EsphomeMediaPlayer.t,
      (forall c, get_capability c (EsphomeMediaPlayer._static_info self) = false) ->
      EsphomeMediaPlayer.supported_features F self = 0).
Proof.
  split.
  - intros self c Hoff self'.
    assert (Heq : EsphomeMediaPlayer.supported_features F self'
                  = Z.lor (EsphomeMediaPlayer.supported_features F self)
                          (flag_of F c)).
    { subst self'. rewrite !supported_features_fold.
      cbn [with_static_info EsphomeMediaPlayer._static_info].
      rewrite (fold_feature_step_set F _ c Hoff), mentions_all.
      reflexivity. }
    split; [exact Heq |].
    rewrite Heq.
    repeat split; intros i Hi; rewrite Z.lor_spec, Hi.
    + apply orb_true_r.
    + apply orb_false_r.
    + reflexivity.
  - intros self Hnone. rewrite supported_features_fold.
    apply fold_feature_step_none. exact Hnone.
Qed.

(** Turning seek on for the demo speaker adds bit 1 to [PAUSE |
    PLAY_MEDIA | BROWSE_MEDIA]; the descriptor without capabilities
    projects to zero. *)
Lemma supported_features_monotonic_witness :
  get_capability CapSeek (EsphomeMediaPlayer._static_info demo_player) = false
  /\ EsphomeMediaPlayer.supported_features hass_features
       (with_static_info demo_player
          (set_capability CapSeek true
             (EsphomeMediaPlayer._static_info demo_player)))
     = Z.lor (EsphomeMediaPlayer.supported_features hass_features demo_player)
             (flag_of hass_features CapSeek)
  /\ EsphomeMediaPlayer.supported_features hass_features
       (with_static_info demo_player (no_capabilities 7)) = 0.
Proof.
  split; [reflexivity |].
  split.
  - exact (proj1 (proj1 (supported_features_monotonic hass_features)
                    demo_player CapSeek eq_refl)).
  - apply (proj2 (supported_features_monotonic hass_features)).
    intros c. destruct c; reflexivity.
Defined.

(** Under the host's numbering the flags of distinct capabilities share
    no bit, so the bits a capability adds were not set before. *)
Lemma hass_features_disjoint (c c' : Capability) :
  c <> c' ->
  Z.land (flag_of hass_features c') (flag_of hass_features c) = 0.
Proof. intros Hne. destruct c, c'; try reflexivity; congruence. Qed.

Lemma supported_features_adds_new_bits (self : EsphomeMediaPlayer.t)
    (c : Capability) :
  get_capability c (EsphomeMediaPlayer._static_info self) = false ->
  Z.land (EsphomeMediaPlayer.supported_features hass_features self)
         (flag_of hass_features c) = 0.
Proof.
  intros Hoff. rewrite supported_features_fold.
  rewrite fold_feature_step_land.
  - reflexivity.
  - intros c' _ Hon. apply hass_features_disjoint.
    intros Heq. subst c'. congruence.
Qed.

(** C6. With [supports_pause] and [supports_play_media] true and every
    other capability false, the mask is exactly
    [PAUSE | PLAY_MEDIA | BROWSE_MEDIA]. *)
Theorem supported_features_pause_play_media
    (F : MediaPlayerEntityFeature.t) (self : EsphomeMediaPlayer.t) :
  (forall c, get_capability c (EsphomeMediaPlayer._static_info self)
             = match c with
               | CapPause | CapPlayMedia => true
               | _ => false
               end) ->
  EsphomeMediaPlayer.supported_features F self
  = Z.lor (MediaPlayerEntityFeature.PAUSE F)
          (Z.lor (MediaPlayerEntityFeature.PLAY_MEDIA F)
                 (MediaPlayerEntityFeature.BROWSE_MEDIA F)).
Proof.
  intros Hcaps.
  unfold EsphomeMediaPlayer.supported_features.
  pose proof (Hcaps CapPause) as H1. pose proof (Hcaps CapSeek) as H2.
  pose proof (Hcaps CapVolumeSet) as H3.
  pose proof (Hcaps CapVolumeMute) as H4.
  pose proof (Hcaps CapPreviousTrack) as H5.
  pose proof (Hcaps CapNextTrack) as H6.
  pose proof (Hcaps CapTurnOn) as H7. pose proof (Hcaps CapTurnOff) as H8.
  pose proof (Hcaps CapPlayMedia) as H9.
  pose proof (Hcaps CapVolumeStep) as H10.
  pose proof (Hcaps CapSelectSource) as H11.
  pose proof (Hcaps CapStop) as H12.
  pose proof (Hcaps CapClearPlaylist) as H13.
  pose proof (Hcaps CapPlay) as H14.
  pose proof (Hcaps CapShuffleSet) as H15.
  pose proof (Hcaps CapSelectSoundMode) as H16.
  pose proof (Hcaps CapRepeatSet) as H17.
  cbn [get_capability] in *.
  rewrite H1, H2, H3, H4, H5, H6, H7, H8, H9, H10, H11, H12, H13, H14,
    H15, H16, H17.
  cbv zeta. rewrite Z.lor_0_l. reflexivity.
Qed.

(** On the demo speaker, with the host's numbering, the mask is
    1 + 512 + 131072. *)
Lemma supported_features_pause_play_media_witness :
  EsphomeMediaPlayer.supported_features hass_features demo_player = 131585
  /\ EsphomeMediaPlayer.supported_features hass_features demo_player
     = Z.lor (MediaPlayerEntityFeature.PAUSE hass_features)
             (Z.lor (MediaPlayerEntityFeature.PLAY_MEDIA hass_features)
                    (MediaPlayerEntityFeature.BROWSE_MEDIA hass_features)).
Proof.
  split; [reflexivity |].
  apply (supported_features_pause_play_media hass_features demo_player).
  intros c. destruct c; reflexivity.
Defined.

(** C10. [supported_features] reads the static descriptor only: two
    entities with the same descriptor have the same mask, whatever their
    snapshots, clients and hosts.  It is defined before the first
    snapshot, where it has the value it keeps once a snapshot arrives,
    while every property under the snapshot guard is absent. *)
Theorem supported_features_static_only (F : MediaPlayerEntityFeature.t) :
  (forall self1 self2 : EsphomeMediaPlayer.t,
      EsphomeMediaPlayer._static_info self1
      = EsphomeMediaPlayer._static_info self2 ->
      EsphomeMediaPlayer.supported_features F self1
      = EsphomeMediaPlayer.supported_features F self2)
  /\ (forall self : EsphomeMediaPlayer.t,
      EsphomeMediaPlayer._state self = None ->
      (forall later : EsphomeMediaPlayer.t,
          EsphomeMediaPlayer._static_info later
          = EsphomeMediaPlayer._static_info self ->
          EsphomeMediaPlayer.supported_features F self
          = EsphomeMediaPlayer.supported_features F later)
      /\ EsphomeMediaPlayer.state self = Return None
      /\ EsphomeMediaPlayer.volume_level self = Return None
      /\ EsphomeMediaPlayer.is_volume_muted self = Return None
      /\ EsphomeMediaPlayer.source self = Return None
      /\ EsphomeMediaPlayer.source_list self = Return None
      /\ EsphomeMediaPlayer.sound_mode self = Return None
      /\ EsphomeMediaPlayer.sound_mode_list self = Return None
      /\ EsphomeMediaPlayer.repeat self = Return None).
Proof.
  assert (Hsame : forall self1 self2 : EsphomeMediaPlayer.t,
             EsphomeMediaPlayer._static_info self1
             = EsphomeMediaPlayer._static_info self2 ->
             EsphomeMediaPlayer.supported_features F self1
             = EsphomeMediaPlayer.supported_features F self2).
  { intros self1 self2 Hinfo.
    unfold EsphomeMediaPlayer.supported_features.
    rewrite Hinfo. reflexivity. }
  split; [exact Hsame |].
  intros self Hnone. split.
  - intros later Hinfo. apply Hsame. symmetry. exact Hinfo.
  - unfold EsphomeMediaPlayer.state, EsphomeMediaPlayer.volume_level,
      EsphomeMediaPlayer.is_volume_muted, EsphomeMediaPlayer.source,
      EsphomeMediaPlayer.source_list, EsphomeMediaPlayer.sound_mode,
      EsphomeMediaPlayer.sound_mode_list, EsphomeMediaPlayer.repeat,
      EsphomeMediaPlayer.esphome_state_property.
    rewrite Hnone. repeat split.
Qed.

(** The demo speaker before and after its first snapshot: the mask is
    the same, the state goes from absent to playing. *)
Lemma supported_features_static_only_witness :
  EsphomeMediaPlayer._static_info demo_player
  = EsphomeMediaPlayer._static_info demo_player_playing
  /\ EsphomeMediaPlayer.supported_features hass_features demo_player
     = EsphomeMediaPlayer.supported_features hass_features demo_player_playing
  /\ EsphomeMediaPlayer._state demo_player = None
  /\ EsphomeMediaPlayer.state demo_player = Return None
  /\ EsphomeMediaPlayer.state demo_player_playing
     = Return (Some MediaPlayerState.PLAYING).
Proof.
  split; [reflexivity |].
  split.
  - exact (proj1 (supported_features_static_only hass_features)
             demo_player demo_player_playing eq_refl).
  - split; [reflexivity |].
    split.
    + exact (proj1 (proj2 (proj2 (supported_features_static_only hass_features)
                             demo_player eq_refl))).
    + reflexivity.
Defined.

(* ------------------------------------------------------------------ *)
(** ** The command methods *)

Lemma submitted_media_player_command (self : EsphomeMediaPlayer.t) (key : Z)
    (kwargs : list kw.t) :
  submitted (EsphomeMediaPlayer.media_player_command self key kwargs)
  = [ {| request_key := key; request_kwargs := kwargs |} ].
Proof. reflexivity. Qed.

(** Every host repeat mode has a device value. *)
Lemma repeat_from_hass_total (mode : RepeatMode.t) :
  exists device_mode, repeat_from_hass mode = Return device_mode.
Proof. destruct mode; eexists; reflexivity. Qed.

Lemma submitted_async_set_repeat (self : EsphomeMediaPlayer.t)
    (mode : RepeatMode.t) :
  exists device_mode,
    repeat_from_hass mode = Return device_mode
    /\ submitted (EsphomeMediaPlayer.async_set_repeat self mode)
       = [ {| request_key :=
                MediaPlayerInfo.key (EsphomeMediaPlayer._static_info self);
              request_kwargs :=
                [ kw.command MediaPlayerCommand.SELECT_SOUND_MODE;
                  kw.repeat device_mode ] |} ].
Proof.
  destruct (repeat_from_hass_total mode) as [device_mode Hmode].
  exists device_mode. split; [exact Hmode |].
  unfold submitted, EsphomeMediaPlayer.async_set_repeat, bind, lift.
  rewrite Hmode. reflexivity.
Qed.



Lemma submitted_async_play_media_unresolved (self : EsphomeMediaPlayer.t)
    (media_type media_id : string) (e : Exception) :
  is_media_source_id (EsphomeMediaPlayer.hass self) media_id = true ->
  async_resolve_media (EsphomeMediaPlayer.hass self) media_id
    (EsphomeMediaPlayer.entity_id self) = Raise e ->
  submitted (EsphomeMediaPlayer.async_play_media self media_type media_id) = []
  /\ outcome (EsphomeMediaPlayer.async_play_media self media_type media_id)
     = Raise e.
Proof.
  intros Hsource Hraised.
  unfold submitted, outcome, EsphomeMediaPlayer.async_play_media,
    bind, lift, ret.
  rewrite Hsource, Hraised. split; reflexivity.
Qed.




(** C2. The call of set-repeat has the discriminant SELECT_SOUND_MODE,
    the one select-sound-mode uses; the two calls differ in their payload
    keyword only. *)
Theorem async_set_repeat_discriminant (self : EsphomeMediaPlayer.t)
    (mode : RepeatMode.t) (name : string) :
  (exists device_mode,
      submitted (EsphomeMediaPlayer.async_set_repeat self mode)
      = [ {| request_key :=
               MediaPlayerInfo.key (EsphomeMediaPlayer._static_info self);
             request_kwargs :=
               [ kw.command MediaPlayerCommand.SELECT_SOUND_MODE;
                 kw.repeat device_mode ] |} ])
  /\ map (fun req => get_command (request_kwargs req))
         (submitted (EsphomeMediaPlayer.async_set_repeat self mode))
     = [Some MediaPlayerCommand.SELECT_SOUND_MODE]
  /\ map (fun req => get_command (request_kwargs req))
         (submitted (EsphomeMediaPlayer.async_set_repeat self mode))
     = map (fun req => get_command (request_kwargs req))
           (submitted (EsphomeMediaPlayer.async_select_sound_mode self name)).
Proof.
  destruct (submitted_async_set_repeat self mode)
    as (device_mode & _ & Hsub).
  rewrite Hsub. split.
  - exists device_mode. reflexivity.
  - split; reflexivity.
Qed.

(** C3. Set-repeat with the host mode ALL submits exactly one call; its
    [repeat] keyword is the device mode ALL, which is what the reverse
    lookup of [_REPEAT_MODES] gives for the host mode ALL. *)
Theorem async_set_repeat_all (self : EsphomeMediaPlayer.t) :
  repeat_from_hass RepeatMode.ALL = Return EspRepeatMode.ALL
  /\ submitted (EsphomeMediaPlayer.async_set_repeat self RepeatMode.ALL)
     = [ {| request_key :=
              MediaPlayerInfo.key (EsphomeMediaPlayer._static_info self);
            request_kwargs :=
              [ kw.command MediaPlayerCommand.SELECT_SOUND_MODE;
                kw.repeat EspRepeatMode.ALL ] |} ]
  /\ map (fun req => get_repeat (request_kwargs req))
         (submitted (EsphomeMediaPlayer.async_set_repeat self RepeatMode.ALL))
     = [Some EspRepeatMode.ALL].
Proof. repeat split. Qed.

(** C7. Muting submits the discriminant MUTE and unmuting the
    discriminant UNMUTE; the two differ, and neither call has a payload
    keyword. *)
Theorem async_mute_volume_discriminants (self : EsphomeMediaPlayer.t) :
  submitted (EsphomeMediaPlayer.async_mute_volume self true)
  = [ {| request_key :=
           MediaPlayerInfo.key (EsphomeMediaPlayer._static_info self);
         request_kwargs := [kw.command MediaPlayerCommand.MUTE] |} ]
  /\ submitted (EsphomeMediaPlayer.async_mute_volume self false)
     = [ {| request_key :=
              MediaPlayerInfo.key (EsphomeMediaPlayer._static_info self);
            request_kwargs := [kw.command MediaPlayerCommand.UNMUTE] |} ]
  /\ MediaPlayerCommand.MUTE <> MediaPlayerCommand.UNMUTE
  /\ (forall mute req,
        In req (submitted (EsphomeMediaPlayer.async_mute_volume self mute)) ->
        filter is_payload (request_kwargs req) = []).
Proof.
  split; [reflexivity |].
  split; [reflexivity |].
  split; [discriminate |].
  intros mute req Hin.
  destruct mute; simpl in Hin; destruct Hin as [Hreq | []];
    subst req; reflexivity.
Qed.




(* ================================================================== *)
(** * Further properties *)

(* ------------------------------------------------------------------ *)
(** ** The feature-flag projection, bit by bit *)

Section FeatureBits.
Variable F : MediaPlayerEntityFeature.t.

Lemma fold_feature_step_testbit (info : MediaPlayerInfo.t) (i : Z)
    (l : list Capability) :
  forall a,
    Z.testbit (fold_left (feature_step F info) l a) i
    = Z.testbit a i || existsb (contributes F info i) l.
Proof.
  induction l as [| c l IH]; intros a; cbn [fold_left existsb].
  - symmetry. apply orb_false_r.
  - rewrite IH. unfold feature_step, contributes at 2.
    destruct (get_capability c info); cbn [andb].
    + rewrite Z.lor_spec. symmetry. apply orb_assoc.
    + cbn [orb]. reflexivity.
Qed.

Lemma supported_features_testbit_existsb (self : EsphomeMediaPlayer.t)
    (i : Z) :
  Z.testbit (EsphomeMediaPlayer.supported_features F self) i
  = existsb (contributes F (EsphomeMediaPlayer._static_info self) i)
            all_capabilities.
Proof.
  rewrite supported_features_fold, fold_feature_step_testbit.
  rewrite Z.testbit_0_l. reflexivity.
Qed.

Lemma in_all_capabilities (c : Capability) : In c all_capabilities.
Proof. destruct c; simpl; tauto. Qed.

(** A predicate that holds of [c] at most: its disjunction over a list
    is its value at [c], when the list has [c]. *)
Lemma existsb_only (f : Capability -> bool) (c : Capability)
    (l : list Capability) :
  (forall c', c' <> c -> f c' = false) ->
  existsb f l = mentions c l && f c.
Proof.
  intros Honly. induction l as [| c1 l IH]; cbn [existsb mentions].
  - reflexivity.
  - fold (mentions c l). rewrite IH.
    destruct (Capability_eq_dec c c1) as [Heq | Hne].
    + subst c1. cbn [orb andb]. destruct (f c); cbn [orb andb].
      * reflexivity.
      * apply andb_false_r.
    + rewrite (Honly c1 (fun H => Hne (eq_sym H))). reflexivity.
Qed.

Lemma existsb_pointwise (f g : Capability -> bool) (l : list Capability) :
  (forall c, f c = g c) -> existsb f l = existsb g l.
Proof.
  intros Hfg. induction l as [| c l IH]; cbn [existsb].
  - reflexivity.
  - rewrite Hfg, IH. reflexivity.
Qed.

(** Under disjoint flags, a bit of one flag is a bit of no other. *)
Lemma disjoint_testbit (c c' : Capability) (i : Z) :
  flags_disjoint F -> c' <> c ->
  Z.testbit (flag_of F c) i = true -> Z.testbit (flag_of F c') i = false.
Proof.
  intros Hdisj Hne Hbit.
  pose proof (f_equal (fun z => Z.testbit z i) (Hdisj c' c Hne)) as Hand.
  cbv beta in Hand. rewrite Z.land_spec, Z.testbit_0_l, Hbit in Hand.
  rewrite andb_true_r in Hand. exact Hand.
Qed.

(** Masking the projection with the flag of a capability gives the flag
    or zero, by the capability. *)
Lemma supported_features_land_flag (self : EsphomeMediaPlayer.t)
    (c : Capability) :
  flags_disjoint F ->
  Z.land (EsphomeMediaPlayer.supported_features F self) (flag_of F c)
  = if get_capability c (EsphomeMediaPlayer._static_info self)
    then flag_of F c else 0.
Proof.
  intros Hdisj. apply Z.bits_inj'. intros i _.
  rewrite Z.land_spec, supported_features_testbit_existsb.
  destruct (Z.testbit (flag_of F c) i) eqn:Hbit.
  - rewrite andb_true_r.
    rewrite (existsb_only _ c).
    + rewrite mentions_all. unfold contributes. rewrite Hbit.
      cbn [andb]. rewrite andb_true_r.
      destruct (get_capability c (EsphomeMediaPlayer._static_info self)).
      * symmetry. exact Hbit.
      * symmetry. apply Z.testbit_0_l.
    + intros c' Hne. unfold contributes.
      rewrite (disjoint_testbit c c' i Hdisj Hne Hbit). apply andb_false_r.
  - rewrite andb_false_r.
    destruct (get_capability c (EsphomeMediaPlayer._static_info self)).
    + symmetry. exact Hbit.
    + symmetry. apply Z.testbit_0_l.
Qed.

(** X1. Bit [i] of the mask is set exactly when some capability the
    descriptor has carries bit [i] in its flag: the mask has no other
    bits, whatever the values of the feature members. *)
Theorem supported_features_testbit (self : EsphomeMediaPlayer.t) (i : Z) :
  Z.testbit (EsphomeMediaPlayer.supported_features F self) i = true
  <-> exists c,
        get_capability c (EsphomeMediaPlayer._static_info self) = true
        /\ Z.testbit (flag_of F c) i = true.
Proof.
  rewrite supported_features_testbit_existsb, existsb_exists.
  unfold contributes. split.
  - intros (c & _ & Hc). apply andb_true_iff in Hc. exists c. exact Hc.
  - intros (c & Hon & Hbit). exists c. split.
    + apply in_all_capabilities.
    + rewrite Hon, Hbit. reflexivity.
Qed.

(** X2. When no two flags share a bit and every flag has one, the host
    can read a capability back from the mask: masking with the flag of a
    capability gives the whole flag if the descriptor has the capability
    and zero if not. *)
Theorem supported_features_decodes (self : EsphomeMediaPlayer.t)
    (c : Capability) :
  flags_disjoint F -> flags_nonzero F ->
  (get_capability c (EsphomeMediaPlayer._static_info self) = true
   <-> Z.land (EsphomeMediaPlayer.supported_features F self) (flag_of F c)
       = flag_of F c)
  /\ (get_capability c (EsphomeMediaPlayer._static_info self) = false
      <-> Z.land (EsphomeMediaPlayer.supported_features F self) (flag_of F c)
          = 0).
Proof.
  intros Hdisj Hnz.
  rewrite (supported_features_land_flag self c Hdisj).
  pose proof (Hnz c) as Hc.
  destruct (get_capability c (EsphomeMediaPlayer._static_info self));
    split; split; intros H; try reflexivity; try discriminate H; congruence.
Qed.

(** X3. Under the same two conditions the projection loses nothing: two
    descriptors with the same mask agree on every capability. *)
Theorem supported_features_injective (self1 self2 : EsphomeMediaPlayer.t) :
  flags_disjoint F -> flags_nonzero F ->
  EsphomeMediaPlayer.supported_features F self1
  = EsphomeMediaPlayer.supported_features F self2 ->
  forall c,
    get_capability c (EsphomeMediaPlayer._static_info self1)
    = get_capability c (EsphomeMediaPlayer._static_info self2).
Proof.
  intros Hdisj Hnz Hmask c.
  pose proof (supported_features_land_flag self1 c Hdisj) as H1.
  pose proof (supported_features_land_flag self2 c Hdisj) as H2.
  rewrite Hmask, H2 in H1. pose proof (Hnz c) as Hc.
  destruct (get_capability c (EsphomeMediaPlayer._static_info self1)),
           (get_capability c (EsphomeMediaPlayer._static_info self2));
    congruence.
Qed.

(** X4. When no two flags share a bit, turning a capability off (from
    either value) clears exactly its flag bits in the mask. *)
Theorem supported_features_turn_off (self : EsphomeMediaPlayer.t)
    (c : Capability) :
  flags_disjoint F ->
  EsphomeMediaPlayer.supported_features F
    (with_static_info self
       (set_capability c false (EsphomeMediaPlayer._static_info self)))
  = Z.ldiff (EsphomeMediaPlayer.supported_features F self) (flag_of F c).
Proof.
  intros Hdisj. apply Z.bits_inj'. intros i _.
  rewrite Z.ldiff_spec, !supported_features_testbit_existsb.
  cbn [with_static_info EsphomeMediaPlayer._static_info].
  destruct (Z.testbit (flag_of F c) i) eqn:Hbit; cbn [negb].
  - rewrite andb_false_r. rewrite (existsb_only _ c).
    + unfold contributes. rewrite get_set_capability_same.
      apply andb_false_r.
    + intros c' Hne. unfold contributes.
      rewrite (disjoint_testbit c c' i Hdisj Hne Hbit). apply andb_false_r.
  - rewrite andb_true_r. apply existsb_pointwise. intros c'.
    unfold contributes.
    destruct (Capability_eq_dec c c') as [Heq | Hne].
    + subst c'. rewrite Hbit, !andb_false_r. reflexivity.
    + rewrite (get_set_capability_other c c' false _ Hne). reflexivity.
Qed.

(** X5. The order of the conditionals does not matter, nor would a
    repeated one: folding the same step over any list that has every
    capability gives the mask. *)
Theorem supported_features_any_order (self : EsphomeMediaPlayer.t)
    (l : list Capability) :
  (forall c, In c l) ->
  fold_left (feature_step F (EsphomeMediaPlayer._static_info self)) l 0
  = EsphomeMediaPlayer.supported_features F self.
Proof.
  intros Hall. apply Z.bits_inj'. intros i _.
  rewrite fold_feature_step_testbit, supported_features_testbit_existsb.
  rewrite Z.testbit_0_l. cbn [orb].
  apply eq_iff_eq_true. rewrite !existsb_exists. split.
  - intros (c & _ & Hc). exists c. split; [apply in_all_capabilities | exact Hc].
  - intros (c & _ & Hc). exists c. split; [apply Hall | exact Hc].
Qed.

(** X6. A descriptor with more capabilities has a mask with more bits:
    if every capability of the first entity is one of the second, the
    first mask is a sub-mask of the second. *)
Theorem supported_features_submask (self1 self2 : EsphomeMediaPlayer.t) :
  (forall c,
      get_capability c (EsphomeMediaPlayer._static_info self1) = true ->
      get_capability c (EsphomeMediaPlayer._static_info self2) = true) ->
  Z.land (EsphomeMediaPlayer.supported_features F self1)
         (EsphomeMediaPlayer.supported_features F self2)
  = EsphomeMediaPlayer.supported_features F self1.
Proof.
  intros Hsub. apply Z.bits_inj'. intros i _.
  rewrite Z.land_spec.
  destruct (Z.testbit (EsphomeMediaPlayer.supported_features F self1) i)
    eqn:Hbit1; cbn [andb]; [| reflexivity].
  rewrite supported_features_testbit_existsb in *.
  apply existsb_exists in Hbit1. destruct Hbit1 as (c & Hin & Hc).
  apply existsb_exists. exists c. split; [exact Hin |].
  unfold contributes in *. apply andb_true_iff in Hc.
  destruct Hc as [Hon Hb]. rewrite (Hsub c Hon), Hb. reflexivity.
Qed.

End FeatureBits.

Lemma hass_flags_disjoint : flags_disjoint hass_features.
Proof. intros c c' Hne. destruct c, c'; try reflexivity; congruence. Qed.

Lemma hass_flags_nonzero : flags_nonzero hass_features.
Proof. intros c. destruct c; discriminate. Qed.

(** The demo speaker has play-media and not seek: masking with
    [PLAY_MEDIA | BROWSE_MEDIA] gives both bits, masking with [SEEK]
    gives zero. *)
Lemma supported_features_decodes_witness :
  Z.land (EsphomeMediaPlayer.supported_features hass_features demo_player)
         (flag_of hass_features CapPlayMedia) = 131584
  /\ Z.land (EsphomeMediaPlayer.supported_features hass_features demo_player)
            (flag_of hass_features CapSeek) = 0.
Proof.
  split.
  - exact (proj1 (proj1 (supported_features_decodes hass_features demo_player
                           CapPlayMedia hass_flags_disjoint
                           hass_flags_nonzero)) eq_refl).
  - exact (proj1 (proj2 (supported_features_decodes hass_features demo_player
                           CapSeek hass_flags_disjoint
                           hass_flags_nonzero)) eq_refl).
Defined.

(** The two demo entities have the same mask, hence the same
    capabilities. *)
Lemma supported_features_injective_witness :
  EsphomeMediaPlayer.supported_features hass_features demo_player
  = EsphomeMediaPlayer.supported_features hass_features demo_player_playing
  /\ forall c,
       get_capability c (EsphomeMediaPlayer._static_info demo_player)
       = get_capability c
           (EsphomeMediaPlayer._static_info demo_player_playing).
Proof.
  split; [reflexivity |].
  exact (supported_features_injective hass_features demo_player
           demo_player_playing hass_flags_disjoint hass_flags_nonzero
           eq_refl).
Defined.

(** Taking play-media away from the demo speaker leaves [PAUSE]. *)
Lemma supported_features_turn_off_witness :
  EsphomeMediaPlayer.supported_features hass_features
    (with_static_info demo_player
       (set_capability CapPlayMedia false
          (EsphomeMediaPlayer._static_info demo_player)))
  = Z.ldiff 131585 131584.
Proof.
  exact (supported_features_turn_off hass_features demo_player CapPlayMedia
           hass_flags_disjoint).
Defined.

(** The conditionals taken last to first. *)
Lemma supported_features_any_order_witness :
  (forall c, In c (rev all_capabilities))
  /\ fold_left
       (feature_step hass_features
          (EsphomeMediaPlayer._static_info demo_player))
       (rev all_capabilities) 0
     = EsphomeMediaPlayer.supported_features hass_features demo_player.
Proof.
  assert (Hall : forall c, In c (rev all_capabilities)).
  { intros c. destruct c; simpl; tauto. }
  split; [exact Hall |].
  exact (supported_features_any_order hass_features demo_player
           (rev all_capabilities) Hall).
Defined.

(** The speaker with seek added has the bits of the speaker. *)
Lemma supported_features_submask_witness :
  Z.land (EsphomeMediaPlayer.supported_features hass_features demo_player)
         (EsphomeMediaPlayer.supported_features hass_features
            (with_static_info demo_player
               (set_capability CapSeek true
                  (EsphomeMediaPlayer._static_info demo_player))))
  = EsphomeMediaPlayer.supported_features hass_features demo_player.
Proof.
  apply (supported_features_submask hass_features demo_player).
  intros c. destruct c; simpl; intros H; try reflexivity; discriminate H.
Defined.

(* ------------------------------------------------------------------ *)
(** ** The command methods: outcomes, failures and what a call tells *)


(** X8. Play-media of a media-source identifier whose resolution raises
    sends nothing to the device: the log of calls is left as it was and
    the resolver's exception is the outcome. *)
Theorem play_media_unresolved_sends_nothing (self : EsphomeMediaPlayer.t)
    (media_type media_id : string) (e : Exception)
    (log : list CommandRequest) :
  is_media_source_id (EsphomeMediaPlayer.hass self) media_id = true ->
  async_resolve_media (EsphomeMediaPlayer.hass self) media_id
    (EsphomeMediaPlayer.entity_id self) = Raise e ->
  EsphomeMediaPlayer.async_play_media self media_type media_id log
  = (Raise e, log).
Proof.
  intros Hsource Hraised.
  unfold EsphomeMediaPlayer.async_play_media, bind, lift, ret.
  rewrite Hsource, Hraised. reflexivity.
Qed.

(** A media-source identifier the demo host does not know, after an
    earlier pause. *)
Lemma play_media_unresolved_sends_nothing_witness :
  EsphomeMediaPlayer.async_play_media demo_player "music"
    "media-source://media_source/local/missing.mp3"
    (submitted (EsphomeMediaPlayer.async_media_pause demo_player))
  = (Raise (MediaSourceError "media-source://media_source/local/missing.mp3"),
     [ {| request_key := 42;
          request_kwargs := [kw.command MediaPlayerCommand.PAUSE] |} ]).
Proof.
  exact (play_media_unresolved_sends_nothing demo_player "music"
           "media-source://media_source/local/missing.mp3"
           (MediaSourceError "media-source://media_source/local/missing.mp3")
           (submitted (EsphomeMediaPlayer.async_media_pause demo_player))
           eq_refl eq_refl).
Defined.

(** X9. The call tells the invocation: two different invocations, neither
    of them play-media, submit different calls, so no argument is dropped
    or merged on the way to the device. *)
Theorem distinct_invocations_distinct_calls (self : EsphomeMediaPlayer.t)
    (i j : Invocation) :
  is_play_media i = false -> is_play_media j = false -> i <> j ->
  submitted (invoke self i) <> submitted (invoke self j).
Proof.
  intros Hi Hj Hne Heq. apply Hne. clear Hne.
  destruct i as [ | position | volume | mute | | | |
                | media_type media_id | | | source | | |
                | shuffle | sound_mode | mode ];
    try discriminate Hi;
    destruct j as [ | position' | volume' | mute' | | | |
                  | media_type' media_id' | | | source' | | |
                  | shuffle' | sound_mode' | mode' ];
    try discriminate Hj;
    repeat match goal with
           | m : RepeatMode.t |- _ => destruct m
           | b : bool |- _ => destruct b
           end;
    cbv in Heq; congruence.
Qed.

(** Muting and unmuting submit different calls. *)
Lemma distinct_invocations_distinct_calls_witness :
  submitted (invoke demo_player (MuteVolume true))
  <> submitted (invoke demo_player (MuteVolume false)).
Proof.
  apply (distinct_invocations_distinct_calls demo_player
           (MuteVolume true) (MuteVolume false) eq_refl eq_refl).
  discriminate.
Defined.

(** Play-media submits a call without discriminant, or none. *)
Lemma discriminants_play_media (self : EsphomeMediaPlayer.t)
    (media_type media_id : string) :
  discriminants (invoke self (PlayMediaCall media_type media_id)) = [None]
  \/ discriminants (invoke self (PlayMediaCall media_type media_id)) = [].
Proof.
  unfold discriminants, submitted. cbn [invoke].
  unfold EsphomeMediaPlayer.async_play_media, bind, lift, ret.
  destruct (is_media_source_id (EsphomeMediaPlayer.hass self) media_id).
  - destruct (async_resolve_media (EsphomeMediaPlayer.hass self) media_id
                (EsphomeMediaPlayer.entity_id self)).
    + right. reflexivity.
    + left. reflexivity.
  - left. reflexivity.
Qed.

(** X10. The discriminant tells the method, with one exception: two
    invocations whose calls have the same discriminants are of the same
    method, or one is select-sound-mode and the other set-repeat. *)
Theorem discriminant_collisions (self : EsphomeMediaPlayer.t)
    (i j : Invocation) :
  discriminants (invoke self i) = discriminants (invoke self j) ->
  same_method i j = true
  \/ (exists sound_mode mode,
         i = SelectSoundMode sound_mode /\ j = SetRepeat mode)
  \/ (exists sound_mode mode,
         i = SetRepeat mode /\ j = SelectSoundMode sound_mode).
Proof.
  intros Heq.
  destruct i as [ | position | volume | mute | | | |
                | media_type media_id | | | source | | |
                | shuffle | sound_mode | mode ];
    destruct j as [ | position' | volume' | mute' | | | |
                  | media_type' media_id' | | | source' | | |
                  | shuffle' | sound_mode' | mode' ];
    try (left; reflexivity);
    try (right; left; eexists; eexists; split; reflexivity);
    try (right; right; eexists; eexists; split; reflexivity);
    exfalso;
    try (destruct (discriminants_play_media self media_type media_id)
          as [Hp | Hp]; rewrite Hp in Heq);
    try (destruct (discriminants_play_media self media_type' media_id')
          as [Hp | Hp]; rewrite Hp in Heq);
    repeat match goal with
           | m : RepeatMode.t |- _ => destruct m
           | b : bool |- _ => destruct b
           end;
    cbv in Heq; discriminate Heq.
Qed.

(** The collision happens: selecting a sound mode and setting the repeat
    mode submit the same discriminant. *)
Lemma discriminant_collisions_witness :
  discriminants (invoke demo_player (SelectSoundMode "stereo"))
  = discriminants (invoke demo_player (SetRepeat RepeatMode.ONE))
  /\ (same_method (SelectSoundMode "stereo") (SetRepeat RepeatMode.ONE) = true
      \/ (exists sound_mode mode,
             SelectSoundMode "stereo" = SelectSoundMode sound_mode
             /\ SetRepeat RepeatMode.ONE = SetRepeat mode)
      \/ (exists sound_mode mode,
             SelectSoundMode "stereo" = SetRepeat mode
             /\ SetRepeat RepeatMode.ONE = SelectSoundMode sound_mode)).
Proof.
  split; [reflexivity |].
  exact (discriminant_collisions demo_player (SelectSoundMode "stereo")
           (SetRepeat RepeatMode.ONE) eq_refl).
Defined.

(** X11. Reading [repeat] and setting it again sends the device its own
    mode: when the property returns a host mode, set-repeat with that
    mode submits one call whose [repeat] keyword is the repeat mode of
    the snapshot. *)
Theorem repeat_read_then_set (self : EsphomeMediaPlayer.t)
    (snapshot : MediaPlayerEntityState.t) (mode : RepeatMode.t) :
  EsphomeMediaPlayer._state self = Some snapshot ->
  EsphomeMediaPlayer.repeat self = Return (Some mode) ->
  submitted (EsphomeMediaPlayer.async_set_repeat self mode)
  = [ {| request_key :=
           MediaPlayerInfo.key (EsphomeMediaPlayer._static_info self);
         request_kwargs :=
           [ kw.command MediaPlayerCommand.SELECT_SOUND_MODE;
             kw.repeat (MediaPlayerEntityState.repeat_mode snapshot) ] |} ].
Proof.
  intros Hsnap Hread.
  unfold EsphomeMediaPlayer.repeat, EsphomeMediaPlayer.esphome_state_property
    in Hread.
  rewrite Hsnap in Hread.
  destruct (repeat_from_esphome (MediaPlayerEntityState.repeat_mode snapshot))
    as [e | mode'] eqn:Hmode; cbn in Hread; [discriminate Hread |].
  injection Hread as Hsame. subst mode'.
  unfold repeat_from_esphome, from_esphome in Hmode.
  destruct (lookup_esphome EspRepeatMode.eq_dec
              (MediaPlayerEntityState.repeat_mode snapshot)
              (mapping _REPEAT_MODES)) as [d |] eqn:Hlookup;
    [| discriminate Hmode].
  injection Hmode as Hd. subst d.
  pose proof (lookup_esphome_In _ _ EspRepeatMode.eq_dec _ _ _ Hlookup)
    as Hentry.
  pose proof (lookup_hass_of_entry _ _ RepeatMode.eq_dec _ _ _
                _REPEAT_MODES_domain_side_distinct Hentry) as Hback.
  unfold submitted, EsphomeMediaPlayer.async_set_repeat, bind, lift,
    repeat_from_hass, from_hass.
  rewrite Hback. reflexivity.
Qed.

(** The demo speaker reports repeat off; setting what was read sends
    the device mode OFF. *)
Lemma repeat_read_then_set_witness :
  EsphomeMediaPlayer.repeat demo_player_online = Return (Some RepeatMode.OFF)
  /\ submitted (EsphomeMediaPlayer.async_set_repeat demo_player_online
                  RepeatMode.OFF)
     = [ {| request_key := 42;
            request_kwargs :=
              [ kw.command MediaPlayerCommand.SELECT_SOUND_MODE;
                kw.repeat EspRepeatMode.OFF ] |} ].
Proof.
  split; [reflexivity |].
  exact (repeat_read_then_set demo_player_online demo_snapshot RepeatMode.OFF
           eq_refl eq_refl).
Defined.





(* ------------------------------------------------------------------ *)
(** ** The [state] property, case by case *)

(** X14. What [state] gives in each of its three cases: absent before
    the first snapshot; for a snapshot whose play state [_STATES] lists,
    the host state whose reverse lookup is that play state; for a
    snapshot whose play state is not listed, the mapper's error naming
    it, which the guard lets through. *)
Theorem state_by_cases (self : EsphomeMediaPlayer.t) :
  match EsphomeMediaPlayer._state self with
  | None => EsphomeMediaPlayer.state self = Return None
  | Some snapshot =>
      (In (MediaPlayerEntityState.state snapshot) (map fst (mapping _STATES))
       -> exists d,
            EsphomeMediaPlayer.state self = Return (Some d)
            /\ states_from_hass d
               = Return (MediaPlayerEntityState.state snapshot))
      /\ (~ In (MediaPlayerEntityState.state snapshot)
              (map fst (mapping _STATES))
          -> EsphomeMediaPlayer.state self
             = Raise (UnmappedState
                        (UnmappedValueError
                           (MediaPlayerEntityState.state snapshot))))
  end.
Proof.
  unfold EsphomeMediaPlayer.state, EsphomeMediaPlayer.esphome_state_property.
  destruct (EsphomeMediaPlayer._state self) as [snapshot |]; [| reflexivity].
  split.
  - intros Hlisted.
    destruct (mapper_roundtrip_esphome _ _ EspMediaPlayerState.eq_dec
                MediaPlayerState.eq_dec _STATES
                (MediaPlayerEntityState.state snapshot)
                _STATES_device_side_distinct _STATES_domain_side_distinct
                Hlisted) as (d & Hthere & Hback).
    exists d. unfold states_from_esphome. rewrite Hthere.
    split; [reflexivity | exact Hback].
  - intros Habsent. unfold states_from_esphome, from_esphome.
    rewrite (lookup_esphome_absent _ _ EspMediaPlayerState.eq_dec _ _ Habsent).
    reflexivity.
Qed.
